(** * The filtered-download example of the gallery, embedded and verified

    The program is the code cell of
    [examples/gallery/simple/save_filtered_df.ipynb]:

<<
    years = pn.widgets.MultiChoice(name='Years', options=list(autompg.yr.unique()), ...)
    mpg   = pn.widgets.RangeSlider(name='Mile per Gallon', start=..., end=...)

    @pn.depends(years, mpg)
    def filtered_mpg(yrs, mpg):
        df = autompg
        if years.value:
            df = autompg[autompg.yr.isin(yrs)]
        return df[(df.mpg >= mpg[0]) & (df.mpg <= mpg[1])]

    @pn.depends(years, mpg)
    def filtered_file(yr, mpg):
        df = filtered_mpg(yr, mpg)
        sio = StringIO()
        df.to_csv(sio)
        sio.seek(0)
        return sio
>>

    Data frames are objects on a heap, so that [df = autompg] is an alias
    and every boolean-mask indexing allocates a new frame.  The widget
    [years] is part of the global state: the body reads [years.value]
    besides its argument [yrs]. *)

From Stdlib Require Import ZArith QArith String.
From stdpp Require Import base option list gmap.

Local Open Scope Z_scope.

(** ** Data model *)

(** A row of the sample table.  The code reads the columns [mpg] (a finite
    float, hence a rational: comparisons of finite floats agree with the
    order of the rationals) and [yr]; [label] is the index label pandas
    attaches to the row and [cells] holds the columns the code never
    looks at. *)
Record Row : Type := mkRow {
  label : Z;
  r_mpg : Q;
  r_yr : Z;
  cells : list string
}.

(** A frame is the sequence of its rows, in table order. *)
Definition DataFrame : Type := list Row.

(** References to frames. *)
Definition loc : Type := positive.

(** The global state of the notebook: the frames that exist, the module
    level name [autompg], and the current values of the two widgets. *)
Record World : Type := mkWorld {
  heap : gmap loc DataFrame;
  autompg : loc;
  years_value : list Z;
  mpg_value : Q * Q
}.

Definition set_heap (h : gmap loc DataFrame) (w : World) : World :=
  {| heap := h; autompg := autompg w;
     years_value := years_value w; mpg_value := mpg_value w |}.

(** Rebinding the module level name, and a new selection in the widget. *)
Definition set_autompg (l : loc) (w : World) : World :=
  {| heap := heap w; autompg := l;
     years_value := years_value w; mpg_value := mpg_value w |}.

Definition set_years (v : list Z) (w : World) : World :=
  {| heap := heap w; autompg := autompg w;
     years_value := v; mpg_value := mpg_value w |}.

(** ** Computations: state and failure *)

(** A computation reads and updates the world and either returns a value
    or raises ([None]). *)
Definition M (A : Type) : Type := World -> option (A * World).

Definition ret {A} (a : A) : M A := fun w => Some (a, w).

Definition bind {A B} (m : M A) (k : A -> M B) : M B :=
  fun w => match m w with
           | Some (a, w') => k a w'
           | None => None
           end.

Definition raise {A} : M A := fun _ => None.

Notation "'let*' x ':=' m 'in' k" := (bind m (fun x => k))
  (at level 10, x name, m at level 100, k at level 200).

(** A name bound at module level, and the attribute [years.value]. *)
Definition global_autompg : M loc := fun w => Some (autompg w, w).
Definition get_years_value : M (list Z) := fun w => Some (years_value w, w).

(** Dereference a frame; a dangling reference raises. *)
Definition load (l : loc) : M DataFrame :=
  fun w => match heap w !! l with
           | Some df => Some (df, w)
           | None => None
           end.

(** A new frame object. *)
Definition alloc (df : DataFrame) : M loc :=
  fun w => let l := fresh (dom (heap w)) in
           Some (l, set_heap (<[l := df]> (heap w)) w).

(** Truth value of a Python list: true when it has an element. *)
Definition truthy {A} (l : list A) : bool :=
  match l with
  | [] => false
  | _ :: _ => true
  end.

(** ** The pandas operations the program uses *)

Module Series.

(** [s.isin(values)]: element-wise membership. *)
Definition isin (s : list Z) (values : list Z) : list bool :=
  map (fun v => existsb (Z.eqb v) values) s.

(** [s >= x] and [s <= x], element-wise. *)
Definition ge (s : list Q) (x : Q) : list bool :=
  map (fun v => Qle_bool x v) s.

Definition le (s : list Q) (x : Q) : list bool :=
  map (fun v => Qle_bool v x) s.

(** [a & b] on two masks over the same index. *)
Definition and (a b : list bool) : list bool :=
  zip_with andb a b.

End Series.

Module DataFrame.

(** Rows kept by a boolean mask, position by position. *)
Fixpoint keep (df : list Row) (mask : list bool) : list Row :=
  match df, mask with
  | r :: df', b :: mask' =>
      if b then r :: keep df' mask' else keep df' mask'
  | _, _ => []
  end.

(** [df[mask]] on values: the masks of this program are computed from
    the frame they index, so labels align position by position; a mask
    that does not cover the frame is refused. *)
Definition select (df : list Row) (mask : list bool) : option (list Row) :=
  if decide (length mask = length df) then Some (keep df mask) else None.

(** The columns [df.yr] and [df.mpg] of a frame object. *)
Definition yr (l : loc) : M (list Z) :=
  let* df := load l in ret (map r_yr df).

Definition mpg (l : loc) : M (list Q) :=
  let* df := load l in ret (map r_mpg df).

(** [df[mask]]: a new frame object with the rows the mask keeps. *)
Definition getitem (l : loc) (mask : list bool) : M loc :=
  let* df := load l in
  match select df mask with
  | Some rows => alloc rows
  | None => raise
  end.

End DataFrame.

(** ** The program *)

Definition filtered_mpg (yrs : list Z) (mpg : Q * Q) : M loc :=
  let* df := global_autompg in
  let* v := get_years_value in
  let* df :=
    (if truthy v then
       let* a := global_autompg in
       let* a' := global_autompg in
       let* y := DataFrame.yr a' in
       DataFrame.getitem a (Series.isin y yrs)
     else ret df) in
  let* lhs := DataFrame.mpg df in
  let* rhs := DataFrame.mpg df in
  DataFrame.getitem df
    (Series.and (Series.ge lhs (fst mpg)) (Series.le rhs (snd mpg))).

(** ** The text buffer and the download callback *)

Module StringIO.

(** An in-memory text file: its contents and the stream position. *)
Record t : Type := mk { buf : string; pos : nat }.

(** [StringIO()] *)
Definition new : t := {| buf := EmptyString; pos := 0 |}.

(** [n] NUL characters: what a write past the end pads with. *)
Fixpoint nuls (n : nat) : string :=
  match n with
  | O => EmptyString
  | S n' => String Ascii.zero (nuls n')
  end.

(** [sio.write(s)]: overwrite from the position on, extend as needed,
    and leave the position after the text written. *)
Definition write (s : string) (f : t) : t :=
  let n := String.length (buf f) in
  let before := (substring 0 (pos f) (buf f) ++ nuls (pos f - n))%string in
  let stop := (pos f + String.length s)%nat in
  let after := substring stop (n - stop) (buf f) in
  {| buf := (before ++ s ++ after)%string; pos := stop |}.

(** [sio.seek(p)] *)
Definition seek (p : nat) (f : t) : t := {| buf := buf f; pos := p |}.

(** [sio.read()]: the text from the position to the end. *)
Definition read (f : t) : string :=
  substring (pos f) (String.length (buf f) - pos f) (buf f).

(** [sio.getvalue()] *)
Definition getvalue (f : t) : string := buf f.

End StringIO.

Section Download.

(** The CSV text pandas produces for the rows of a frame: the
    serializer belongs to the library, the program only calls it. *)
Variable csv : DataFrame -> string.

(** [df.to_csv(sio)]: the text of the frame is written to the buffer. *)
Definition to_csv (l : loc) (sio : StringIO.t) : M StringIO.t :=
  let* df := load l in ret (StringIO.write (csv df) sio).

Definition filtered_file (yr : list Z) (mpg : Q * Q) : M StringIO.t :=
  let* df := filtered_mpg yr mpg in
  let sio := StringIO.new in
  let* sio := to_csv df sio in
  let sio := StringIO.seek 0 sio in
  ret sio.

End Download.

(** ** Observing a computation *)

(** The rows of the frame a computation returns. *)
Definition rows_of (m : M loc) (w : World) : option DataFrame :=
  match m w with
  | Some (l, w') => heap w' !! l
  | None => None
  end.

(** The table the name [autompg] denotes. *)
Definition dataset (w : World) : option DataFrame := heap w !! autompg w.

(** ** A small table for running the program *)

Module Sample.

Definition row (i : Z) (m : Q) (y : Z) (n : string) : Row :=
  {| label := i; r_mpg := m; r_yr := y; cells := [n] |}.

Definition malibu : Row := row 0 (18 # 1) 70 "chevrolet chevelle malibu".
Definition skylark : Row := row 1 (15 # 1) 70 "buick skylark 320".
Definition pl510 : Row := row 2 (27 # 1) 71 "datsun pl510".
Definition impala : Row := row 3 (13 # 1) 72 "chevrolet impala".
Definition glc : Row := row 4 (466 # 10) 80 "mazda glc".
Definition hi1200d : Row := row 5 (9 # 1) 70 "hi 1200d".

Definition table : DataFrame :=
  [malibu; skylark; pl510; impala; glc; hi1200d].

(** The whole span of the slider, and a narrower range. *)
Definition full : Q * Q := (9 # 1, 466 # 10).
Definition narrow : Q * Q := (15 # 1, 18 # 1).

(** The notebook after its first cell: the table is the only frame. *)
Definition world (sel : list Z) : World :=
  {| heap := {[ 1%positive := table ]}; autompg := 1%positive;
     years_value := sel; mpg_value := full |}.

Definition csv (df : DataFrame) : string :=
  String.concat "," (flat_map cells df).

End Sample.

(** ** Row-wise reading of the masks *)

(** What the mask [autompg.yr.isin(yrs)] holds at the position of a row. *)
Definition year_ok (yrs : list Z) (r : Row) : bool :=
  existsb (Z.eqb (r_yr r)) yrs.

(** What the mask [(df.mpg >= mpg[0]) & (df.mpg <= mpg[1])] holds at the
    position of a row. *)
Definition mpg_ok (mpg : Q * Q) (r : Row) : bool :=
  Qle_bool (fst mpg) (r_mpg r) && Qle_bool (r_mpg r) (snd mpg).

(** The frame [df] after the [if]: the rows of the selected years when the
    widget holds a selection, the table itself otherwise. *)
Definition after_years (w : World) (yrs : list Z) (data : DataFrame) : DataFrame :=
  if truthy (years_value w)
  then DataFrame.keep data (map (year_ok yrs) data)
  else data.

(** The rows of the frame [filtered_mpg] returns. *)
Definition view (w : World) (yrs : list Z) (mpg : Q * Q) (data : DataFrame) : DataFrame :=
  let df := after_years w yrs data in
  DataFrame.keep df (map (mpg_ok mpg) df).

(** [w'] is [w] with one more frame: [l] was unused in [w] and holds
    [df] in [w'], every frame of [w] is still there with the same rows,
    and the names and the widgets are as they were. *)
Definition allocated (w w' : World) (l : loc) (df : DataFrame) : Prop :=
  heap w' !! l = Some df /\
  heap w !! l = None /\
  (forall l' df', heap w !! l' = Some df' -> heap w' !! l' = Some df') /\
  autompg w' = autompg w /\
  years_value w' = years_value w /\
  mpg_value w' = mpg_value w.

(** ** The widgets of the notebook

<<
    years = pn.widgets.MultiChoice(
        name='Years', options=list(autompg.yr.unique()), margin=(0, 20, 0, 0))
    mpg = pn.widgets.RangeSlider(
        name='Mile per Gallon', start=autompg.mpg.min(), end=autompg.mpg.max())
>>
*)

Module Column.

(** [s.unique()]: the values of a column, each once, in the order in
    which they first appear; [seen] holds the values met so far. *)
Fixpoint unique_from (seen : list Z) (s : list Z) : list Z :=
  match s with
  | [] => []
  | v :: s' =>
      if existsb (Z.eqb v) seen then unique_from seen s'
      else v :: unique_from (v :: seen) s'
  end.

Definition unique (s : list Z) : list Z := unique_from [] s.

(** [s.min()] and [s.max()]: the least and the greatest value of a
    column; [None] stands for the NaN pandas gives on an empty column. *)
Definition min (s : list Q) : option Q :=
  match s with
  | [] => None
  | v :: s' => Some (fold_left (fun m x => if Qle_bool m x then m else x) s' v)
  end.

Definition max (s : list Q) : option Q :=
  match s with
  | [] => None
  | v :: s' => Some (fold_left (fun m x => if Qle_bool m x then x else m) s' v)
  end.

End Column.

(** The options of the years widget: [list(autompg.yr.unique())]. *)
Definition years_options : M (list Z) :=
  let* a := global_autompg in
  let* y := DataFrame.yr a in
  ret (Column.unique y).

(** The two ends of the slider: [autompg.mpg.min()], [autompg.mpg.max()]. *)
Definition mpg_start : M (option Q) :=
  let* a := global_autompg in
  let* m := DataFrame.mpg a in
  ret (Column.min m).

Definition mpg_end : M (option Q) :=
  let* a := global_autompg in
  let* m := DataFrame.mpg a in
  ret (Column.max m).

(** The value a computation returns. *)
Definition value_of {A} (m : M A) (w : World) : option A :=
  match m w with
  | Some (a, _) => Some a
  | None => None
  end.

(** ** Masks *)

Section Masks.

Implicit Types (df : list Row) (mask : list bool) (p : Row -> bool).

Lemma keep_sublist df mask : DataFrame.keep df mask `sublist_of` df.
Proof.
  revert mask. induction df as [|r df IH]; intros [|b mask]; simpl;
    try apply sublist_nil_l.
  destruct b; [apply sublist_skip | apply sublist_cons]; apply IH.
Qed.

Lemma elem_of_keep_map p df r :
  r ∈ DataFrame.keep df (map p df) <-> r ∈ df /\ p r = true.
Proof.
  induction df as [|x df IH]; simpl.
  - rewrite elem_of_nil. tauto.
  - destruct (p x) eqn:Hx; rewrite ?elem_of_cons, IH; split.
    + intros [->|[? ?]]; auto.
    + intros [[->|?] ?]; auto.
    + intros [? ?]; auto.
    + intros [[->|?] ?]; [congruence | auto].
Qed.

Lemma keep_map_all p df :
  (forall r, r ∈ df -> p r = true) -> DataFrame.keep df (map p df) = df.
Proof.
  induction df as [|x df IH]; simpl; intros Hall; [reflexivity|].
  rewrite (Hall x) by apply list_elem_of_here.
  f_equal. apply IH. intros r Hr. apply Hall. by apply list_elem_of_further.
Qed.

Lemma keep_map_idem p df :
  let out := DataFrame.keep df (map p df) in
  DataFrame.keep out (map p out) = out.
Proof.
  intros out. apply keep_map_all. intros r Hr.
  by apply elem_of_keep_map in Hr as [_ ?].
Qed.

Lemma select_map df p :
  DataFrame.select df (map p df) = Some (DataFrame.keep df (map p df)).
Proof.
  unfold DataFrame.select. rewrite length_map.
  destruct (decide (length df = length df)); [reflexivity | contradiction].
Qed.

Lemma isin_rowwise df yrs :
  Series.isin (map r_yr df) yrs = map (year_ok yrs) df.
Proof. unfold Series.isin. by rewrite map_map. Qed.

Lemma range_rowwise df (mpg : Q * Q) :
  Series.and (Series.ge (map r_mpg df) (fst mpg))
             (Series.le (map r_mpg df) (snd mpg))
  = map (mpg_ok mpg) df.
Proof.
  unfold Series.and, Series.ge, Series.le.
  induction df as [|r df IH]; simpl; [reflexivity|].
  by rewrite IH.
Qed.

Lemma year_ok_spec yrs r : year_ok yrs r = true <-> r_yr r ∈ yrs.
Proof.
  unfold year_ok. rewrite existsb_exists. split.
  - intros (y & Hy & Heq). apply Z.eqb_eq in Heq as ->.
    by apply list_elem_of_In.
  - intros Hin. exists (r_yr r). split; [by apply list_elem_of_In|].
    apply Z.eqb_refl.
Qed.

Lemma mpg_ok_spec (mpg : Q * Q) r :
  mpg_ok mpg r = true <-> (fst mpg <= r_mpg r)%Q /\ (r_mpg r <= snd mpg)%Q.
Proof.
  unfold mpg_ok. by rewrite andb_true_iff, !Qle_bool_iff.
Qed.

End Masks.

(** ** Running the primitives *)

Section Runs.

Implicit Types (w : World) (l : loc) (df : DataFrame).

Lemma bind_run {A B} (m : M A) (k : A -> M B) w a w1 :
  m w = Some (a, w1) -> bind m k w = k a w1.
Proof. unfold bind. by intros ->. Qed.

Lemma load_run w l df : heap w !! l = Some df -> load l w = Some (df, w).
Proof. unfold load. by intros ->. Qed.

Lemma yr_run w l df :
  heap w !! l = Some df -> DataFrame.yr l w = Some (map r_yr df, w).
Proof.
  intros H. unfold DataFrame.yr. by rewrite (bind_run _ _ _ _ _ (load_run _ _ _ H)).
Qed.

Lemma mpg_run w l df :
  heap w !! l = Some df -> DataFrame.mpg l w = Some (map r_mpg df, w).
Proof.
  intros H. unfold DataFrame.mpg. by rewrite (bind_run _ _ _ _ _ (load_run _ _ _ H)).
Qed.

Lemma alloc_run w df :
  exists l w', alloc df w = Some (l, w') /\ allocated w w' l df.
Proof.
  unfold alloc. eexists _, _. split; [reflexivity|].
  assert (Hfresh : heap w !! fresh (dom (heap w)) = None).
  { apply not_elem_of_dom, is_fresh. }
  unfold allocated; simpl. repeat split; trivial.
  - apply lookup_insert_eq.
  - intros l' df' Hl'. rewrite lookup_insert_ne; [done|].
    intros <-. congruence.
Qed.

Lemma getitem_run w l df (p : Row -> bool) :
  heap w !! l = Some df ->
  exists l' w',
    DataFrame.getitem l (map p df) w = Some (l', w') /\
    allocated w w' l' (DataFrame.keep df (map p df)).
Proof.
  intros H. unfold DataFrame.getitem.
  rewrite (bind_run _ _ _ _ _ (load_run _ _ _ H)), select_map.
  apply alloc_run.
Qed.

Lemma allocated_trans w w1 w2 l1 l2 df1 df2 :
  allocated w w1 l1 df1 -> allocated w1 w2 l2 df2 -> allocated w w2 l2 df2.
Proof.
  intros (_ & _ & Hk1 & Ha1 & Hy1 & Hm1) (Hl2 & Hn2 & Hk2 & Ha2 & Hy2 & Hm2).
  unfold allocated. repeat split; try congruence.
  - destruct (heap w !! l2) as [df|] eqn:E; [|done].
    apply Hk1 in E. congruence.
  - intros l' df' Hl'. by apply Hk2, Hk1.
Qed.

(** The run of [filtered_mpg] on a world where [autompg] names a table. *)
Lemma filtered_mpg_run w yrs mpg data :
  dataset w = Some data ->
  exists l w',
    filtered_mpg yrs mpg w = Some (l, w') /\
    allocated w w' l (view w yrs mpg data).
Proof.
  unfold dataset, view, after_years. intros Hd.
  unfold filtered_mpg.
  rewrite (bind_run global_autompg _ w (autompg w) w eq_refl).
  rewrite (bind_run get_years_value _ w (years_value w) w eq_refl).
  destruct (truthy (years_value w)).
  - destruct (getitem_run w _ _ (year_ok yrs) Hd) as (l1 & w1 & Hrun1 & Hal1).
    erewrite bind_run; cycle 1.
    { rewrite (bind_run global_autompg _ w (autompg w) w eq_refl).
      rewrite (bind_run global_autompg _ w (autompg w) w eq_refl).
      rewrite (bind_run _ _ _ _ _ (yr_run _ _ _ Hd)).
      rewrite isin_rowwise. exact Hrun1. }
    pose proof Hal1 as (Hl1 & _).
    rewrite (bind_run _ _ _ _ _ (mpg_run _ _ _ Hl1)).
    rewrite (bind_run _ _ _ _ _ (mpg_run _ _ _ Hl1)).
    rewrite range_rowwise.
    destruct (getitem_run w1 _ _ (mpg_ok mpg) Hl1) as (l2 & w2 & Hrun2 & Hal2).
    exists l2, w2. split; [exact Hrun2|].
    eapply allocated_trans; eassumption.
  - rewrite (bind_run (ret (autompg w)) _ w (autompg w) w eq_refl).
    rewrite (bind_run _ _ _ _ _ (mpg_run _ _ _ Hd)).
    rewrite (bind_run _ _ _ _ _ (mpg_run _ _ _ Hd)).
    rewrite range_rowwise.
    apply getitem_run, Hd.
Qed.

Lemma rows_of_filtered_mpg w yrs mpg data :
  dataset w = Some data ->
  rows_of (filtered_mpg yrs mpg) w = Some (view w yrs mpg data).
Proof.
  intros Hd. destruct (filtered_mpg_run w yrs mpg data Hd) as (l & w' & Hrun & Hal).
  unfold rows_of. rewrite Hrun. by destruct Hal as (Hl & _).
Qed.

End Runs.

(** ** The text buffer *)

Section Buffer.

Lemma append_empty_r (s : string) : (s ++ "")%string = s.
Proof.
  induction s as [|c s IH]; [reflexivity|].
  change (String c (s ++ "")%string = String c s). by rewrite IH.
Qed.

Lemma substring_whole (s : string) : substring 0 (String.length s) s = s.
Proof. induction s as [|c s IH]; simpl; [reflexivity | by rewrite IH]. Qed.

(** Writing into a new buffer leaves exactly the text written. *)
Lemma write_new (s : string) :
  StringIO.write s StringIO.new
  = {| StringIO.buf := s; StringIO.pos := String.length s |}.
Proof.
  unfold StringIO.write, StringIO.new; simpl. f_equal.
  transitivity (s ++ "")%string; [|apply append_empty_r].
  by destruct (String.length s).
Qed.

Lemma read_rewound (s : string) (n : nat) :
  StringIO.read (StringIO.seek 0 {| StringIO.buf := s; StringIO.pos := n |}) = s.
Proof.
  unfold StringIO.read, StringIO.seek; simpl.
  rewrite Nat.sub_0_r. apply substring_whole.
Qed.

(** The run of [filtered_file]: the world is the one [filtered_mpg]
    leaves, the buffer holds the text of the frame it returned. *)
Lemma filtered_file_run (csv : DataFrame -> string) w yr mpg data :
  dataset w = Some data ->
  exists l w',
    filtered_mpg yr mpg w = Some (l, w') /\
    allocated w w' l (view w yr mpg data) /\
    filtered_file csv yr mpg w
    = Some ({| StringIO.buf := csv (view w yr mpg data); StringIO.pos := 0 |}, w').
Proof.
  intros Hd. destruct (filtered_mpg_run w yr mpg data Hd) as (l & w' & Hrun & Hal).
  exists l, w'. split; [exact Hrun|]. split; [exact Hal|].
  unfold filtered_file. rewrite (bind_run _ _ _ _ _ Hrun).
  unfold to_csv. destruct Hal as (Hl & _).
  rewrite (bind_run _ (fun sio => ret (StringIO.seek 0 sio)) w'
             (StringIO.write (csv (view w yr mpg data)) StringIO.new) w').
  - by rewrite write_new.
  - by rewrite (bind_run _ _ _ _ _ (load_run _ _ _ Hl)).
Qed.

End Buffer.

Lemma after_years_view w w2 yrs mpg data :
  years_value w2 = years_value w ->
  after_years w2 yrs (view w yrs mpg data) = view w yrs mpg data.
Proof.
  intros Hy. unfold after_years at 1. rewrite Hy.
  unfold view, after_years.
  destruct (truthy (years_value w)); [|reflexivity].
  apply keep_map_all. intros r Hr.
  apply elem_of_keep_map in Hr as [Hr _].
  by apply elem_of_keep_map in Hr as [_ ?].
Qed.

Lemma view_again w w2 yrs mpg data :
  years_value w2 = years_value w ->
  view w2 yrs mpg (view w yrs mpg data) = view w yrs mpg data.
Proof.
  intros Hy. unfold view at 1; cbv zeta.
  rewrite (after_years_view w w2 yrs mpg data Hy).
  unfold view. apply keep_map_idem.
Qed.

Lemma elem_of_view w yrs (mpg : Q * Q) data r :
  r ∈ view w yrs mpg data <->
  r ∈ data /\ (truthy (years_value w) = true -> r_yr r ∈ yrs) /\
  (fst mpg <= r_mpg r)%Q /\ (r_mpg r <= snd mpg)%Q.
Proof.
  unfold view, after_years. rewrite elem_of_keep_map, mpg_ok_spec.
  destruct (truthy (years_value w)).
  - rewrite elem_of_keep_map, year_ok_spec. tauto.
  - intuition discriminate.
Qed.

Lemma view_sublist w yrs mpg data : view w yrs mpg data `sublist_of` data.
Proof.
  unfold view, after_years. etransitivity; [apply keep_sublist|].
  destruct (truthy (years_value w)); [apply keep_sublist | reflexivity].
Qed.

Lemma truthy_true {A} (l : list A) : truthy l = true <-> l <> [].
Proof. destruct l; simpl; split; congruence. Qed.

(** ** The properties of the program *)

(** C1 (the claim as written fails on an empty selection): at the sample
    table, with nothing selected and the full range, the first row is
    returned although its year is in no selected set. *)
Lemma filtered_mpg_membership_counterexample :
  exists out,
    dataset (Sample.world []) = Some Sample.table /\
    rows_of (filtered_mpg [] Sample.full) (Sample.world []) = Some out /\
    Sample.malibu ∈ Sample.table /\
    ~ (Sample.malibu ∈ out <->
       r_yr Sample.malibu ∈ @nil Z /\
       (fst Sample.full <= r_mpg Sample.malibu)%Q /\
       (r_mpg Sample.malibu <= snd Sample.full)%Q).
Proof.
  exists Sample.table. split; [reflexivity|]. split; [reflexivity|].
  split; [apply list_elem_of_here|].
  intros [Hin _]. destruct (Hin (list_elem_of_here _ _)) as [Hyr _].
  by apply elem_of_nil in Hyr.
Qed.

(** C1 (amended): when [filtered_mpg] is called with the selection the
    years widget holds, a row is in the returned frame if and only if it
    is a row of the table, its [mpg] lies within the bounds, and either
    nothing is selected or its [yr] is one of the selected years. *)
Theorem filtered_mpg_membership w yrs (mpg : Q * Q) data :
  dataset w = Some data ->
  years_value w = yrs ->
  exists out,
    rows_of (filtered_mpg yrs mpg) w = Some out /\
    forall r, r ∈ out <->
      r ∈ data /\ (yrs = [] \/ r_yr r ∈ yrs) /\
      (fst mpg <= r_mpg r)%Q /\ (r_mpg r <= snd mpg)%Q.
Proof.
  intros Hd Hy. eexists. split; [by apply rows_of_filtered_mpg|].
  intros r. rewrite elem_of_view, Hy, truthy_true.
  destruct yrs as [|y yrs]; [intuition congruence|].
  split.
  - intros (? & Hyr & ?). repeat split; try tauto. right. by apply Hyr.
  - intros (? & [?|?] & ?); [discriminate|tauto].
Qed.

Lemma filtered_mpg_membership_witness :
  exists out,
    rows_of (filtered_mpg [70] Sample.narrow) (Sample.world [70]) = Some out /\
    forall r, r ∈ out <->
      r ∈ Sample.table /\ ([70] = [] \/ r_yr r ∈ [70]) /\
      (fst Sample.narrow <= r_mpg r)%Q /\ (r_mpg r <= snd Sample.narrow)%Q.
Proof.
  apply (filtered_mpg_membership (Sample.world [70]) [70] Sample.narrow Sample.table);
    reflexivity.
Defined.

(** C2: the buffer [filtered_file] returns holds exactly the CSV text of
    the rows [filtered_mpg] returns for the same arguments, and it is
    rewound, so that reading it yields that text from its first
    character. *)
Theorem filtered_file_csv (csv : DataFrame -> string) w yr mpg data :
  dataset w = Some data ->
  exists out sio w',
    rows_of (filtered_mpg yr mpg) w = Some out /\
    filtered_file csv yr mpg w = Some (sio, w') /\
    StringIO.getvalue sio = csv out /\
    StringIO.pos sio = 0%nat /\
    StringIO.read sio = csv out.
Proof.
  intros Hd.
  destruct (filtered_file_run csv w yr mpg data Hd) as (l & w' & _ & _ & Hfile).
  eexists _, _, w'. split; [by apply rows_of_filtered_mpg|].
  split; [exact Hfile|]. split; [reflexivity|]. split; [reflexivity|].
  apply (read_rewound _ 0).
Qed.

Lemma filtered_file_csv_witness :
  exists out sio w',
    rows_of (filtered_mpg [70] Sample.narrow) (Sample.world [70]) = Some out /\
    filtered_file Sample.csv [70] Sample.narrow (Sample.world [70]) = Some (sio, w') /\
    StringIO.getvalue sio = Sample.csv out /\
    StringIO.pos sio = 0%nat /\
    StringIO.read sio = Sample.csv out.
Proof.
  apply (filtered_file_csv Sample.csv (Sample.world [70]) [70] Sample.narrow Sample.table).
  reflexivity.
Defined.

(** C3 (the code reads the widget): two calls with the same arguments
    [yrs = [70]] and the full range, over the same table, in worlds that
    differ only in the value the years widget holds, return different
    rows. *)
Lemma filtered_mpg_reads_widget :
  rows_of (filtered_mpg [70] Sample.full) (Sample.world [70])
  = Some [Sample.malibu; Sample.skylark; Sample.hi1200d] /\
  rows_of (filtered_mpg [70] Sample.full) (set_years [] (Sample.world [70]))
  = Some Sample.table.
Proof. split; reflexivity. Qed.

(** C4: on every selection and every range [filtered_mpg] returns a
    frame; when no row of the table lies within the bounds the frame it
    returns is the empty one. *)
Theorem filtered_mpg_returns w yrs (mpg : Q * Q) data :
  dataset w = Some data ->
  exists l w' out,
    filtered_mpg yrs mpg w = Some (l, w') /\
    heap w' !! l = Some out /\
    ((forall r, r ∈ data ->
        ~ ((fst mpg <= r_mpg r)%Q /\ (r_mpg r <= snd mpg)%Q)) ->
     out = []).
Proof.
  intros Hd. destruct (filtered_mpg_run w yrs mpg data Hd) as (l & w' & Hrun & Hal).
  exists l, w', (view w yrs mpg data).
  split; [exact Hrun|]. split; [by destruct Hal|].
  intros Hnone. apply elem_of_nil_inv. intros r Hr.
  apply elem_of_view in Hr as (Hin & _ & Hb). by apply (Hnone r).
Qed.

Lemma filtered_mpg_returns_witness :
  exists l w' out,
    filtered_mpg [70] (100 # 1, 200 # 1) (Sample.world [70]) = Some (l, w') /\
    heap w' !! l = Some out /\
    ((forall r, r ∈ Sample.table ->
        ~ ((100 # 1 <= r_mpg r)%Q /\ (r_mpg r <= 200 # 1)%Q)) ->
     out = []).
Proof.
  apply (filtered_mpg_returns (Sample.world [70]) [70] (100 # 1, 200 # 1) Sample.table).
  reflexivity.
Defined.

(** The empty result, run: a frame with no rows, not a failure. *)
Example filtered_mpg_empty_result :
  rows_of (filtered_mpg [70] (100 # 1, 200 # 1)) (Sample.world [70]) = Some [].
Proof. reflexivity. Qed.

(** C5: filtering is idempotent.  Run [filtered_mpg], let the name
    [autompg] denote the frame it returned, and run it again with the same
    arguments: the rows returned are the same. *)
Theorem filtered_mpg_idempotent w yrs mpg data :
  dataset w = Some data ->
  exists l w' out,
    filtered_mpg yrs mpg w = Some (l, w') /\
    heap w' !! l = Some out /\
    rows_of (filtered_mpg yrs mpg) (set_autompg l w') = Some out.
Proof.
  intros Hd. destruct (filtered_mpg_run w yrs mpg data Hd) as (l & w' & Hrun & Hal).
  exists l, w', (view w yrs mpg data).
  destruct Hal as (Hl & _ & _ & _ & Hy & _).
  split; [exact Hrun|]. split; [exact Hl|].
  rewrite (rows_of_filtered_mpg _ _ _ (view w yrs mpg data)) by exact Hl.
  f_equal. by apply view_again.
Qed.

Lemma filtered_mpg_idempotent_witness :
  exists l w' out,
    filtered_mpg [70] Sample.narrow (Sample.world [70]) = Some (l, w') /\
    heap w' !! l = Some out /\
    rows_of (filtered_mpg [70] Sample.narrow) (set_autompg l w') = Some out.
Proof.
  apply (filtered_mpg_idempotent (Sample.world [70]) [70] Sample.narrow Sample.table).
  reflexivity.
Defined.

(** C6: the range predicate is inclusive at both ends.  The frame
    [filtered_mpg] returns is the frame [df] left by the [if], indexed by
    the mask [(df.mpg >= mpg[0]) & (df.mpg <= mpg[1])], and a row of [df]
    is kept exactly when [mpg[0] <= row.mpg] and [row.mpg <= mpg[1]]. *)
Theorem range_predicate_inclusive w yrs (mpg : Q * Q) data :
  dataset w = Some data ->
  exists out,
    DataFrame.select (after_years w yrs data)
      (Series.and (Series.ge (map r_mpg (after_years w yrs data)) (fst mpg))
                  (Series.le (map r_mpg (after_years w yrs data)) (snd mpg)))
    = Some out /\
    rows_of (filtered_mpg yrs mpg) w = Some out /\
    forall r, r ∈ out <->
      r ∈ after_years w yrs data /\
      (fst mpg <= r_mpg r)%Q /\ (r_mpg r <= snd mpg)%Q.
Proof.
  intros Hd. exists (view w yrs mpg data).
  split; [by rewrite range_rowwise, select_map|].
  split; [by apply rows_of_filtered_mpg|].
  intros r. unfold view. by rewrite elem_of_keep_map, mpg_ok_spec.
Qed.

Lemma range_predicate_inclusive_witness :
  exists out,
    DataFrame.select (after_years (Sample.world [70]) [70] Sample.table)
      (Series.and
         (Series.ge (map r_mpg (after_years (Sample.world [70]) [70] Sample.table))
                    (fst Sample.narrow))
         (Series.le (map r_mpg (after_years (Sample.world [70]) [70] Sample.table))
                    (snd Sample.narrow)))
    = Some out /\
    rows_of (filtered_mpg [70] Sample.narrow) (Sample.world [70]) = Some out /\
    forall r, r ∈ out <->
      r ∈ after_years (Sample.world [70]) [70] Sample.table /\
      (fst Sample.narrow <= r_mpg r)%Q /\ (r_mpg r <= snd Sample.narrow)%Q.
Proof.
  apply (range_predicate_inclusive (Sample.world [70]) [70] Sample.narrow Sample.table).
  reflexivity.
Defined.

(** The rows on the two bounds of the narrow range are kept. *)
Example bounds_are_kept :
  rows_of (filtered_mpg [70] Sample.narrow) (Sample.world [70])
  = Some [Sample.malibu; Sample.skylark].
Proof. reflexivity. Qed.

(** C7: the table is read-only.  After [filtered_mpg], and after
    [filtered_file], the name [autompg] denotes the same rows as before
    and every frame that existed is unchanged; the frame [filtered_mpg]
    returns is a new object, distinct from the table. *)
Theorem dataset_read_only (csv : DataFrame -> string) w yrs mpg data :
  dataset w = Some data ->
  (exists l w',
      filtered_mpg yrs mpg w = Some (l, w') /\
      dataset w' = Some data /\
      heap w !! l = None /\ l <> autompg w /\
      forall l' df, heap w !! l' = Some df -> heap w' !! l' = Some df) /\
  (exists sio w',
      filtered_file csv yrs mpg w = Some (sio, w') /\
      dataset w' = Some data /\
      forall l' df, heap w !! l' = Some df -> heap w' !! l' = Some df).
Proof.
  intros Hd.
  destruct (filtered_file_run csv w yrs mpg data Hd) as (l & w' & Hrun & Hal & Hfile).
  destruct Hal as (_ & Hnew & Hkeep & Ha & _).
  assert (Hd' : dataset w' = Some data).
  { unfold dataset in *. rewrite Ha. by apply Hkeep. }
  split.
  - exists l, w'. repeat split; trivial.
    intros ->. unfold dataset in Hd. congruence.
  - eexists _, w'. repeat split; [exact Hfile | exact Hd' | exact Hkeep].
Qed.

Lemma dataset_read_only_witness :
  (exists l w',
      filtered_mpg [70] Sample.narrow (Sample.world [70]) = Some (l, w') /\
      dataset w' = Some Sample.table /\
      heap (Sample.world [70]) !! l = None /\ l <> autompg (Sample.world [70]) /\
      forall l' df, heap (Sample.world [70]) !! l' = Some df -> heap w' !! l' = Some df) /\
  (exists sio w',
      filtered_file Sample.csv [70] Sample.narrow (Sample.world [70]) = Some (sio, w') /\
      dataset w' = Some Sample.table /\
      forall l' df, heap (Sample.world [70]) !! l' = Some df -> heap w' !! l' = Some df).
Proof.
  apply (dataset_read_only Sample.csv (Sample.world [70]) [70] Sample.narrow Sample.table).
  reflexivity.
Defined.

(** C8: when the years widget holds no selection the membership test is
    skipped: [filtered_mpg] returns the table indexed by the range mask
    alone, that is, every row of the table whose [mpg] lies within the
    bounds. *)
Theorem filtered_mpg_no_selection w yrs (mpg : Q * Q) data :
  dataset w = Some data ->
  years_value w = [] ->
  exists out,
    rows_of (filtered_mpg yrs mpg) w = Some out /\
    DataFrame.select data
      (Series.and (Series.ge (map r_mpg data) (fst mpg))
                  (Series.le (map r_mpg data) (snd mpg))) = Some out /\
    forall r, r ∈ out <->
      r ∈ data /\ (fst mpg <= r_mpg r)%Q /\ (r_mpg r <= snd mpg)%Q.
Proof.
  intros Hd Hy. exists (view w yrs mpg data).
  split; [by apply rows_of_filtered_mpg|].
  unfold view, after_years. rewrite Hy. simpl.
  split; [by rewrite range_rowwise, select_map|].
  intros r. by rewrite elem_of_keep_map, mpg_ok_spec.
Qed.

Lemma filtered_mpg_no_selection_witness :
  exists out,
    rows_of (filtered_mpg [] Sample.narrow) (Sample.world []) = Some out /\
    DataFrame.select Sample.table
      (Series.and (Series.ge (map r_mpg Sample.table) (fst Sample.narrow))
                  (Series.le (map r_mpg Sample.table) (snd Sample.narrow))) = Some out /\
    forall r, r ∈ out <->
      r ∈ Sample.table /\
      (fst Sample.narrow <= r_mpg r)%Q /\ (r_mpg r <= snd Sample.narrow)%Q.
Proof.
  apply (filtered_mpg_no_selection (Sample.world []) [] Sample.narrow Sample.table);
    reflexivity.
Defined.

(** C9: the rows [filtered_mpg] returns are rows of the table, in table
    order, each position of the table used at most once: the result is a
    subsequence of the table, and it has no repeated row when the table
    has none. *)
Theorem filtered_mpg_subsequence w yrs mpg data :
  dataset w = Some data ->
  exists out,
    rows_of (filtered_mpg yrs mpg) w = Some out /\
    out `sublist_of` data /\
    (forall r, r ∈ out -> r ∈ data) /\
    (NoDup data -> NoDup out).
Proof.
  intros Hd. exists (view w yrs mpg data).
  pose proof (view_sublist w yrs mpg data) as Hsub.
  split; [by apply rows_of_filtered_mpg|]. split; [exact Hsub|]. split.
  - intros r. by apply sublist_subseteq.
  - intros Hnd. by eapply sublist_NoDup.
Qed.

Lemma filtered_mpg_subsequence_witness :
  exists out,
    rows_of (filtered_mpg [70] Sample.full) (Sample.world [70]) = Some out /\
    out `sublist_of` Sample.table /\
    (forall r, r ∈ out -> r ∈ Sample.table) /\
    (NoDup Sample.table -> NoDup out).
Proof.
  apply (filtered_mpg_subsequence (Sample.world [70]) [70] Sample.full Sample.table).
  reflexivity.
Defined.

(** C10: the filter is monotone in its controls.  Take two states of the
    widgets over the same table, the calls made with the selections the
    years widget holds, [S1] not empty and included in [S2], and the
    range [[lo1, hi1]] within [[lo2, hi2]]: every row returned for
    [(S1, (lo1, hi1))] is returned for [(S2, (lo2, hi2))]. *)
Theorem filtered_mpg_monotone w1 w2 S1 S2 (b1 b2 : Q * Q) data :
  dataset w1 = Some data ->
  dataset w2 = Some data ->
  years_value w1 = S1 ->
  years_value w2 = S2 ->
  S1 <> [] ->
  S1 ⊆ S2 ->
  (fst b2 <= fst b1)%Q ->
  (snd b1 <= snd b2)%Q ->
  exists out1 out2,
    rows_of (filtered_mpg S1 b1) w1 = Some out1 /\
    rows_of (filtered_mpg S2 b2) w2 = Some out2 /\
    out1 ⊆ out2.
Proof.
  intros Hd1 Hd2 Hy1 Hy2 Hne Hsub Hlo Hhi.
  exists (view w1 S1 b1 data), (view w2 S2 b2 data).
  split; [by apply rows_of_filtered_mpg|].
  split; [by apply rows_of_filtered_mpg|].
  intros r. rewrite !elem_of_view, Hy1, Hy2.
  intros (Hin & Hyr & Hge & Hle).
  split; [exact Hin|]. split.
  - intros _. apply Hsub, Hyr. by apply truthy_true.
  - split; eapply Qle_trans; eassumption.
Qed.

Lemma filtered_mpg_monotone_witness :
  exists out1 out2,
    rows_of (filtered_mpg [70] Sample.narrow) (Sample.world [70]) = Some out1 /\
    rows_of (filtered_mpg [70; 71] Sample.full) (Sample.world [70; 71]) = Some out2 /\
    out1 ⊆ out2.
Proof.
  apply (filtered_mpg_monotone (Sample.world [70]) (Sample.world [70; 71])
           [70] [70; 71] Sample.narrow Sample.full Sample.table);
    try reflexivity.
  - discriminate.
  - intros y Hy. apply elem_of_cons in Hy as [->|Hy].
    + apply list_elem_of_here.
    + by apply elem_of_nil in Hy.
  - unfold Qle; simpl; lia.
  - unfold Qle; simpl; lia.
Defined.

(** ** The widgets: options and slider ends *)

Section Columns.

Lemma existsb_eqb_elem (v : Z) (l : list Z) :
  existsb (Z.eqb v) l = true <-> v ∈ l.
Proof.
  rewrite existsb_exists. split.
  - intros (y & Hy & Heq). apply Z.eqb_eq in Heq as ->. by apply list_elem_of_In.
  - intros Hin. exists v. split; [by apply list_elem_of_In | apply Z.eqb_refl].
Qed.

Lemma elem_of_unique_from seen s y :
  y ∈ Column.unique_from seen s <-> y ∈ s /\ y ∉ seen.
Proof.
  revert seen. induction s as [|v s IH]; intros seen; simpl.
  - rewrite elem_of_nil. tauto.
  - destruct (existsb (Z.eqb v) seen) eqn:E.
    + apply existsb_eqb_elem in E. rewrite IH, elem_of_cons. split.
      * intros [? ?]; auto.
      * intros [[->|?] ?]; [contradiction | auto].
    + assert (Hv : v ∉ seen).
      { intros Hin. apply existsb_eqb_elem in Hin. congruence. }
      rewrite !elem_of_cons, IH, not_elem_of_cons. split.
      * intros [->|(? & ? & ?)]; auto.
      * intros [[->|?] ?]; [by left|].
        destruct (decide (y = v)) as [->|Hne]; [by left | right; auto].
Qed.

Lemma NoDup_unique_from seen s : NoDup (Column.unique_from seen s).
Proof.
  revert seen. induction s as [|v s IH]; intros seen; simpl; [constructor|].
  destruct (existsb (Z.eqb v) seen); [apply IH|].
  constructor; [|apply IH].
  rewrite elem_of_unique_from, not_elem_of_cons. tauto.
Qed.

Lemma unique_from_sublist seen s : Column.unique_from seen s `sublist_of` s.
Proof.
  revert seen. induction s as [|v s IH]; intros seen; simpl; [constructor|].
  destruct (existsb (Z.eqb v) seen); [apply sublist_cons | apply sublist_skip];
    apply IH.
Qed.

Lemma Qle_bool_false (x y : Q) : Qle_bool x y = false -> (y <= x)%Q.
Proof.
  intros E. apply Qlt_le_weak, Qnot_le_lt. intros H.
  apply Qle_bool_iff in H. congruence.
Qed.

(** The running minimum is the start value or a value of the list, and
    it is below both. *)
Lemma fold_min_spec (s : list Q) (v : Q) :
  let m := fold_left (fun m x => if Qle_bool m x then m else x) s v in
  (m = v \/ m ∈ s) /\ (m <= v)%Q /\ forall x, x ∈ s -> (m <= x)%Q.
Proof.
  revert v. induction s as [|a s IH]; intros v; simpl.
  - split; [by left|]. split; [apply Qle_refl|]. intros x Hx. by apply elem_of_nil in Hx.
  - destruct (IH (if Qle_bool v a then v else a)) as (Hin & Hle & Hall).
    destruct (Qle_bool v a) eqn:E.
    + apply Qle_bool_iff in E. split; [|split].
      * destruct Hin as [?|?]; [by left | right; by apply list_elem_of_further].
      * exact Hle.
      * intros x Hx. apply elem_of_cons in Hx as [->|Hx]; [|by apply Hall].
        by eapply Qle_trans.
    + apply Qle_bool_false in E. split; [|split].
      * right. destruct Hin as [->|?];
          [apply list_elem_of_here | by apply list_elem_of_further].
      * by eapply Qle_trans.
      * intros x Hx. apply elem_of_cons in Hx as [->|Hx]; [exact Hle | by apply Hall].
Qed.

Lemma fold_max_spec (s : list Q) (v : Q) :
  let m := fold_left (fun m x => if Qle_bool m x then x else m) s v in
  (m = v \/ m ∈ s) /\ (v <= m)%Q /\ forall x, x ∈ s -> (x <= m)%Q.
Proof.
  revert v. induction s as [|a s IH]; intros v; simpl.
  - split; [by left|]. split; [apply Qle_refl|]. intros x Hx. by apply elem_of_nil in Hx.
  - destruct (IH (if Qle_bool v a then a else v)) as (Hin & Hle & Hall).
    destruct (Qle_bool v a) eqn:E.
    + apply Qle_bool_iff in E. split; [|split].
      * right. destruct Hin as [->|?];
          [apply list_elem_of_here | by apply list_elem_of_further].
      * by eapply Qle_trans.
      * intros x Hx. apply elem_of_cons in Hx as [->|Hx]; [exact Hle | by apply Hall].
    + apply Qle_bool_false in E. split; [|split].
      * destruct Hin as [?|?]; [by left | right; by apply list_elem_of_further].
      * exact Hle.
      * intros x Hx. apply elem_of_cons in Hx as [->|Hx]; [|by apply Hall].
        by eapply Qle_trans.
Qed.

Lemma min_spec (s : list Q) (lo : Q) :
  Column.min s = Some lo -> lo ∈ s /\ forall x, x ∈ s -> (lo <= x)%Q.
Proof.
  destruct s as [|v s]; simpl; [discriminate|]. intros [= <-].
  destruct (fold_min_spec s v) as (Hin & Hle & Hall). split.
  - destruct Hin as [->|?]; [apply list_elem_of_here | by apply list_elem_of_further].
  - intros x Hx. apply elem_of_cons in Hx as [->|Hx]; [exact Hle | by apply Hall].
Qed.

Lemma max_spec (s : list Q) (hi : Q) :
  Column.max s = Some hi -> hi ∈ s /\ forall x, x ∈ s -> (x <= hi)%Q.
Proof.
  destruct s as [|v s]; simpl; [discriminate|]. intros [= <-].
  destruct (fold_max_spec s v) as (Hin & Hle & Hall). split.
  - destruct Hin as [->|?]; [apply list_elem_of_here | by apply list_elem_of_further].
  - intros x Hx. apply elem_of_cons in Hx as [->|Hx]; [exact Hle | by apply Hall].
Qed.

Lemma elem_of_map_iff {A B} (f : A -> B) (l : list A) (y : B) :
  y ∈ map f l <-> exists x, x ∈ l /\ f x = y.
Proof.
  rewrite list_elem_of_In, in_map_iff. split.
  - intros (x & Hf & Hx). exists x. split; [by apply list_elem_of_In | done].
  - intros (x & Hx & Hf). exists x. split; [done | by apply list_elem_of_In].
Qed.

Lemma years_options_run w data :
  dataset w = Some data ->
  value_of years_options w = Some (Column.unique (map r_yr data)).
Proof.
  intros Hd. unfold value_of, years_options.
  rewrite (bind_run global_autompg _ w (autompg w) w eq_refl).
  by rewrite (bind_run _ _ _ _ _ (yr_run _ _ _ Hd)).
Qed.

Lemma mpg_start_run w data :
  dataset w = Some data ->
  value_of mpg_start w = Some (Column.min (map r_mpg data)).
Proof.
  intros Hd. unfold value_of, mpg_start.
  rewrite (bind_run global_autompg _ w (autompg w) w eq_refl).
  by rewrite (bind_run _ _ _ _ _ (mpg_run _ _ _ Hd)).
Qed.

Lemma mpg_end_run w data :
  dataset w = Some data ->
  value_of mpg_end w = Some (Column.max (map r_mpg data)).
Proof.
  intros Hd. unfold value_of, mpg_end.
  rewrite (bind_run global_autompg _ w (autompg w) w eq_refl).
  by rewrite (bind_run _ _ _ _ _ (mpg_run _ _ _ Hd)).
Qed.

End Columns.

(** ** More on the filter *)

Section Views.

Lemma view_years w w' yrs mpg data :
  years_value w' = years_value w -> view w' yrs mpg data = view w yrs mpg data.
Proof. intros Hy. unfold view, after_years. by rewrite Hy. Qed.

Lemma view_nil w yrs (mpg : Q * Q) data :
  (forall r, r ∈ view w yrs mpg data -> False) -> view w yrs mpg data = [].
Proof. intros H. apply elem_of_nil_inv. intros r Hr. exact (H r Hr). Qed.

Lemma view_all w yrs (mpg : Q * Q) data :
  (forall r, r ∈ data ->
     (truthy (years_value w) = true -> r_yr r ∈ yrs) /\
     (fst mpg <= r_mpg r)%Q /\ (r_mpg r <= snd mpg)%Q) ->
  view w yrs mpg data = data.
Proof.
  intros Hall. unfold view.
  assert (Ha : after_years w yrs data = data).
  { unfold after_years. destruct (truthy (years_value w)) eqn:E; [|reflexivity].
    apply keep_map_all. intros r Hr. apply year_ok_spec.
    by apply (Hall r Hr). }
  rewrite Ha. apply keep_map_all. intros r Hr. apply mpg_ok_spec.
  by apply (Hall r Hr).
Qed.

Lemma keep_keep (p q : Row -> bool) (df : list Row) :
  DataFrame.keep (DataFrame.keep df (map p df))
                 (map q (DataFrame.keep df (map p df)))
  = DataFrame.keep df (map (fun r => p r && q r) df).
Proof.
  induction df as [|x df IH]; simpl; [reflexivity|].
  destruct (p x); simpl; [|exact IH].
  destruct (q x); by rewrite IH.
Qed.

Lemma view_twice w w' yrs b1 b2 data :
  years_value w' = years_value w ->
  view w' yrs b2 (view w yrs b1 data)
  = DataFrame.keep (after_years w yrs data)
      (map (fun r => mpg_ok b1 r && mpg_ok b2 r) (after_years w yrs data)).
Proof.
  intros Hy. unfold view at 1; cbv zeta.
  rewrite (after_years_view w w' yrs b1 data Hy).
  unfold view. apply keep_keep.
Qed.

Lemma year_ok_same S1 S2 r :
  (forall y, y ∈ S1 <-> y ∈ S2) -> year_ok S1 r = year_ok S2 r.
Proof.
  intros Hs. destruct (year_ok S2 r) eqn:E2.
  - apply year_ok_spec, Hs. by apply year_ok_spec.
  - destruct (year_ok S1 r) eqn:E1; [|reflexivity].
    apply year_ok_spec, Hs, year_ok_spec in E1. congruence.
Qed.

Lemma truthy_same {A} (S1 S2 : list A) :
  (forall y, y ∈ S1 <-> y ∈ S2) -> truthy S1 = truthy S2.
Proof.
  intros Hs. destruct S1 as [|a S1], S2 as [|b S2]; simpl; trivial.
  - exfalso. eapply elem_of_nil, Hs, list_elem_of_here.
  - exfalso. eapply elem_of_nil, Hs, list_elem_of_here.
Qed.

End Views.

(** With the widget empty and the range spanning the [mpg] column, the
    view is the table. *)
Lemma full_span_returns_table_rows w data lo hi :
  dataset w = Some data ->
  years_value w = [] ->
  value_of mpg_start w = Some (Some lo) ->
  value_of mpg_end w = Some (Some hi) ->
  view w [] (lo, hi) data = data.
Proof.
  intros Hd Hy Hs He.
  rewrite (mpg_start_run w data Hd) in Hs. rewrite (mpg_end_run w data Hd) in He.
  injection Hs as Hs. injection He as He.
  apply min_spec in Hs as [_ Hmin]. apply max_spec in He as [_ Hmax].
  apply view_all. intros r Hr. rewrite Hy. simpl.
  assert (r_mpg r ∈ map r_mpg data) by (apply elem_of_map_iff; eauto).
  split; [discriminate|]. split; [by apply Hmin | by apply Hmax].
Qed.

(** X1: the options offered by the years widget are the years that occur
    in the table, each once, in the order of the [yr] column. *)
Theorem years_options_cover w data :
  dataset w = Some data ->
  exists opts,
    value_of years_options w = Some opts /\
    NoDup opts /\
    (forall y, y ∈ opts <-> exists r, r ∈ data /\ r_yr r = y) /\
    opts `sublist_of` map r_yr data.
Proof.
  intros Hd. eexists. split; [by apply years_options_run|].
  unfold Column.unique. split; [apply NoDup_unique_from|]. split.
  - intros y. rewrite elem_of_unique_from, elem_of_map_iff, elem_of_nil. tauto.
  - apply unique_from_sublist.
Qed.

Lemma years_options_cover_witness :
  exists opts,
    value_of years_options (Sample.world []) = Some opts /\
    NoDup opts /\
    (forall y, y ∈ opts <-> exists r, r ∈ Sample.table /\ r_yr r = y) /\
    opts `sublist_of` map r_yr Sample.table.
Proof.
  apply (years_options_cover (Sample.world []) Sample.table). reflexivity.
Defined.

(** X2: on a table with at least one row the two ends of the slider are
    values of the [mpg] column, and the [mpg] of every row lies between
    them. *)
Theorem slider_ends_bound w data :
  dataset w = Some data ->
  data <> [] ->
  exists lo hi,
    value_of mpg_start w = Some (Some lo) /\
    value_of mpg_end w = Some (Some hi) /\
    (exists r, r ∈ data /\ r_mpg r = lo) /\
    (exists r, r ∈ data /\ r_mpg r = hi) /\
    forall r, r ∈ data -> (lo <= r_mpg r)%Q /\ (r_mpg r <= hi)%Q.
Proof.
  intros Hd Hne.
  destruct (Column.min (map r_mpg data)) as [lo|] eqn:Emin;
    [|destruct data; [done | discriminate]].
  destruct (Column.max (map r_mpg data)) as [hi|] eqn:Emax;
    [|destruct data; [done | discriminate]].
  exists lo, hi.
  rewrite (mpg_start_run w data Hd), (mpg_end_run w data Hd), Emin, Emax.
  apply min_spec in Emin as [Hlo Hmin]. apply max_spec in Emax as [Hhi Hmax].
  split; [reflexivity|]. split; [reflexivity|].
  split; [by apply elem_of_map_iff|]. split; [by apply elem_of_map_iff|].
  intros r Hr. assert (r_mpg r ∈ map r_mpg data) by (apply elem_of_map_iff; eauto).
  split; [by apply Hmin | by apply Hmax].
Qed.

Lemma slider_ends_bound_witness :
  exists lo hi,
    value_of mpg_start (Sample.world []) = Some (Some lo) /\
    value_of mpg_end (Sample.world []) = Some (Some hi) /\
    (exists r, r ∈ Sample.table /\ r_mpg r = lo) /\
    (exists r, r ∈ Sample.table /\ r_mpg r = hi) /\
    forall r, r ∈ Sample.table -> (lo <= r_mpg r)%Q /\ (r_mpg r <= hi)%Q.
Proof.
  apply (slider_ends_bound (Sample.world []) Sample.table);
    [reflexivity | discriminate].
Defined.

(** X3: with nothing selected and the range set to the two ends of the
    slider, [filtered_mpg] returns the whole table, row for row. *)
Theorem full_span_returns_table w data lo hi :
  dataset w = Some data ->
  years_value w = [] ->
  value_of mpg_start w = Some (Some lo) ->
  value_of mpg_end w = Some (Some hi) ->
  rows_of (filtered_mpg [] (lo, hi)) w = Some data.
Proof.
  intros Hd Hy Hs He.
  rewrite (rows_of_filtered_mpg w [] (lo, hi) data Hd). f_equal.
  by apply full_span_returns_table_rows.
Qed.

Lemma full_span_returns_table_witness :
  rows_of (filtered_mpg [] (9 # 1, 466 # 10)) (Sample.world []) = Some Sample.table.
Proof.
  apply (full_span_returns_table (Sample.world []) Sample.table (9 # 1) (466 # 10));
    reflexivity.
Defined.

(** X4: selecting every option is the same as selecting none: for any
    range, the call with all the options of the widget selected returns
    the rows the call with the empty selection returns. *)
Theorem all_options_as_none w0 w1 opts mpg data :
  dataset w0 = Some data ->
  dataset w1 = Some data ->
  years_value w0 = [] ->
  value_of years_options w1 = Some opts ->
  years_value w1 = opts ->
  rows_of (filtered_mpg opts mpg) w1 = rows_of (filtered_mpg [] mpg) w0.
Proof.
  intros Hd0 Hd1 Hy0 Hopts Hy1.
  rewrite (years_options_run w1 data Hd1) in Hopts. injection Hopts as <-.
  rewrite (rows_of_filtered_mpg w1 _ mpg data Hd1).
  rewrite (rows_of_filtered_mpg w0 _ mpg data Hd0). f_equal.
  unfold view, after_years. rewrite Hy0. simpl.
  destruct (truthy (years_value w1)); [|reflexivity].
  rewrite (keep_map_all (year_ok (Column.unique (map r_yr data)))); [reflexivity|].
  intros r Hr. apply year_ok_spec. unfold Column.unique.
  rewrite elem_of_unique_from, elem_of_map_iff, elem_of_nil. split; [eauto | tauto].
Qed.

Lemma all_options_as_none_witness :
  rows_of (filtered_mpg [70; 71; 72; 80] Sample.narrow) (Sample.world [70; 71; 72; 80])
  = rows_of (filtered_mpg [] Sample.narrow) (Sample.world []).
Proof.
  apply (all_options_as_none (Sample.world []) (Sample.world [70; 71; 72; 80])
           [70; 71; 72; 80] Sample.narrow Sample.table); reflexivity.
Defined.

(** X5: no option is dead: with a single option selected and the range
    set to the two ends of the slider, [filtered_mpg] returns at least one
    row, and every row it returns is of that year. *)
Theorem single_option_not_empty w opts y lo hi data :
  dataset w = Some data ->
  value_of years_options w = Some opts ->
  y ∈ opts ->
  years_value w = [y] ->
  value_of mpg_start w = Some (Some lo) ->
  value_of mpg_end w = Some (Some hi) ->
  exists out,
    rows_of (filtered_mpg [y] (lo, hi)) w = Some out /\
    out <> [] /\
    forall r, r ∈ out -> r_yr r = y.
Proof.
  intros Hd Hopts Hin Hy Hs He.
  rewrite (years_options_run w data Hd) in Hopts. injection Hopts as <-.
  rewrite (mpg_start_run w data Hd) in Hs. rewrite (mpg_end_run w data Hd) in He.
  injection Hs as Hs. injection He as He.
  apply min_spec in Hs as [_ Hmin]. apply max_spec in He as [_ Hmax].
  unfold Column.unique in Hin.
  apply elem_of_unique_from in Hin as [Hin _].
  apply elem_of_map_iff in Hin as (r0 & Hr0 & Hyr0).
  exists (view w [y] (lo, hi) data).
  split; [by apply rows_of_filtered_mpg|]. split.
  - assert (Hr : r0 ∈ view w [y] (lo, hi) data).
    { apply elem_of_view. split; [exact Hr0|]. split.
      - intros _. rewrite Hyr0. apply list_elem_of_here.
      - assert (r_mpg r0 ∈ map r_mpg data) by (apply elem_of_map_iff; eauto).
        split; [by apply Hmin | by apply Hmax]. }
    intros Hnil. rewrite Hnil in Hr. by apply elem_of_nil in Hr.
  - intros r Hr. apply elem_of_view in Hr as (_ & Hyr & _).
    rewrite Hy in Hyr. specialize (Hyr eq_refl).
    apply elem_of_cons in Hyr as [?|Hyr]; [done | by apply elem_of_nil in Hyr].
Qed.

Lemma single_option_not_empty_witness :
  exists out,
    rows_of (filtered_mpg [71] (9 # 1, 466 # 10)) (Sample.world [71]) = Some out /\
    out <> [] /\
    forall r, r ∈ out -> r_yr r = 71.
Proof.
  apply (single_option_not_empty (Sample.world [71]) [70; 71; 72; 80] 71
           (9 # 1) (466 # 10) Sample.table); try reflexivity.
  apply list_elem_of_further, list_elem_of_here.
Defined.

(** X6: an inverted range, its lower bound above its upper bound, keeps
    no row: [filtered_mpg] returns the empty frame. *)
Theorem inverted_range_empty w yrs (mpg : Q * Q) data :
  dataset w = Some data ->
  (snd mpg < fst mpg)%Q ->
  rows_of (filtered_mpg yrs mpg) w = Some [].
Proof.
  intros Hd Hinv. rewrite (rows_of_filtered_mpg w yrs mpg data Hd). f_equal.
  apply view_nil. intros r Hr. apply elem_of_view in Hr as (_ & _ & Hlo & Hhi).
  apply (Qlt_not_le _ _ Hinv). by eapply Qle_trans.
Qed.

Lemma inverted_range_empty_witness :
  rows_of (filtered_mpg [70] (18 # 1, 15 # 1)) (Sample.world [70]) = Some [].
Proof.
  apply (inverted_range_empty (Sample.world [70]) [70] (18 # 1, 15 # 1) Sample.table);
    reflexivity.
Defined.

(** X7: the selection counts as a set: two calls made with the selections
    the years widget holds, the two selections having the same years in
    any order and any number of times, return the same rows. *)
Theorem selection_as_set w1 w2 S1 S2 mpg data :
  dataset w1 = Some data ->
  dataset w2 = Some data ->
  years_value w1 = S1 ->
  years_value w2 = S2 ->
  (forall y, y ∈ S1 <-> y ∈ S2) ->
  rows_of (filtered_mpg S1 mpg) w1 = rows_of (filtered_mpg S2 mpg) w2.
Proof.
  intros Hd1 Hd2 Hy1 Hy2 Hs.
  rewrite (rows_of_filtered_mpg w1 S1 mpg data Hd1).
  rewrite (rows_of_filtered_mpg w2 S2 mpg data Hd2). f_equal.
  unfold view, after_years. rewrite Hy1, Hy2, (truthy_same S1 S2 Hs).
  assert (Hm : map (year_ok S1) data = map (year_ok S2) data).
  { apply map_ext. intros r. by apply year_ok_same. }
  by rewrite Hm.
Qed.

Lemma selection_as_set_witness :
  rows_of (filtered_mpg [70; 71] Sample.full) (Sample.world [70; 71])
  = rows_of (filtered_mpg [71; 70; 71] Sample.full) (Sample.world [71; 70; 71]).
Proof.
  apply (selection_as_set (Sample.world [70; 71]) (Sample.world [71; 70; 71])
           [70; 71] [71; 70; 71] Sample.full Sample.table); try reflexivity.
  intros y. rewrite !elem_of_cons, !elem_of_nil. tauto.
Defined.

(** X8: selections add up: for two selections that are not empty and
    calls made with the selection the years widget holds, a row is
    returned for the two selections taken together exactly when it is
    returned for one of them. *)
Theorem selection_union w1 w2 w12 S1 S2 mpg data :
  dataset w1 = Some data ->
  dataset w2 = Some data ->
  dataset w12 = Some data ->
  years_value w1 = S1 ->
  years_value w2 = S2 ->
  years_value w12 = S1 ++ S2 ->
  S1 <> [] ->
  S2 <> [] ->
  exists out1 out2 out12,
    rows_of (filtered_mpg S1 mpg) w1 = Some out1 /\
    rows_of (filtered_mpg S2 mpg) w2 = Some out2 /\
    rows_of (filtered_mpg (S1 ++ S2) mpg) w12 = Some out12 /\
    forall r, r ∈ out12 <-> r ∈ out1 \/ r ∈ out2.
Proof.
  intros Hd1 Hd2 Hd12 Hy1 Hy2 Hy12 Hne1 Hne2.
  exists (view w1 S1 mpg data), (view w2 S2 mpg data), (view w12 (S1 ++ S2) mpg data).
  split; [by apply rows_of_filtered_mpg|].
  split; [by apply rows_of_filtered_mpg|].
  split; [by apply rows_of_filtered_mpg|].
  intros r. rewrite !elem_of_view, Hy1, Hy2, Hy12.
  assert (H1 : truthy S1 = true) by by apply truthy_true.
  assert (H2 : truthy S2 = true) by by apply truthy_true.
  assert (H12 : truthy (S1 ++ S2) = true).
  { apply truthy_true. destruct S1; [done | discriminate]. }
  rewrite H1, H2, H12, elem_of_app. tauto.
Qed.

Lemma selection_union_witness :
  exists out1 out2 out12,
    rows_of (filtered_mpg [70] Sample.full) (Sample.world [70]) = Some out1 /\
    rows_of (filtered_mpg [71] Sample.full) (Sample.world [71]) = Some out2 /\
    rows_of (filtered_mpg ([70] ++ [71]) Sample.full) (Sample.world [70; 71]) = Some out12 /\
    forall r, r ∈ out12 <-> r ∈ out1 \/ r ∈ out2.
Proof.
  apply (selection_union (Sample.world [70]) (Sample.world [71]) (Sample.world [70; 71])
           [70] [71] Sample.full Sample.table); try reflexivity; discriminate.
Defined.

(** X9: two ranges may be applied in either order.  Run [filtered_mpg]
    with the range [b1], let [autompg] denote the frame it returned and
    run it with [b2]; do the same with [b2] first and [b1] second: the
    rows are the same, those of the first result that lie within the
    second range. *)
Theorem ranges_commute w yrs (b1 b2 : Q * Q) data :
  dataset w = Some data ->
  exists l1 w1 out1 l2 w2 out,
    filtered_mpg yrs b1 w = Some (l1, w1) /\
    heap w1 !! l1 = Some out1 /\
    filtered_mpg yrs b2 w = Some (l2, w2) /\
    rows_of (filtered_mpg yrs b2) (set_autompg l1 w1) = Some out /\
    rows_of (filtered_mpg yrs b1) (set_autompg l2 w2) = Some out /\
    forall r, r ∈ out <->
      r ∈ out1 /\ (fst b2 <= r_mpg r)%Q /\ (r_mpg r <= snd b2)%Q.
Proof.
  intros Hd.
  destruct (filtered_mpg_run w yrs b1 data Hd) as (l1 & w1 & Hrun1 & Hal1).
  destruct (filtered_mpg_run w yrs b2 data Hd) as (l2 & w2 & Hrun2 & Hal2).
  destruct Hal1 as (Hl1 & _ & _ & _ & Hy1 & _).
  destruct Hal2 as (Hl2 & _ & _ & _ & Hy2 & _).
  exists l1, w1, (view w yrs b1 data), l2, w2,
    (view (set_autompg l1 w1) yrs b2 (view w yrs b1 data)).
  split; [exact Hrun1|]. split; [exact Hl1|]. split; [exact Hrun2|].
  split; [by apply rows_of_filtered_mpg|]. split.
  - rewrite (rows_of_filtered_mpg _ _ _ (view w yrs b2 data)) by exact Hl2.
    f_equal. rewrite !view_twice by assumption.
    f_equal. apply map_ext. intros r. apply andb_comm.
  - intros r. rewrite view_twice by assumption.
    unfold view. rewrite !elem_of_keep_map, andb_true_iff, !mpg_ok_spec. tauto.
Qed.

Lemma ranges_commute_witness :
  exists l1 w1 out1 l2 w2 out,
    filtered_mpg [70] Sample.narrow (Sample.world [70]) = Some (l1, w1) /\
    heap w1 !! l1 = Some out1 /\
    filtered_mpg [70] (9 # 1, 15 # 1) (Sample.world [70]) = Some (l2, w2) /\
    rows_of (filtered_mpg [70] (9 # 1, 15 # 1)) (set_autompg l1 w1) = Some out /\
    rows_of (filtered_mpg [70] Sample.narrow) (set_autompg l2 w2) = Some out /\
    forall r, r ∈ out <->
      r ∈ out1 /\ (fst (9 # 1, 15 # 1) <= r_mpg r)%Q /\ (r_mpg r <= snd (9 # 1, 15 # 1))%Q.
Proof.
  apply (ranges_commute (Sample.world [70]) [70] Sample.narrow (9 # 1, 15 # 1) Sample.table).
  reflexivity.
Defined.

(** X10: a download does not depend on the downloads made before it: the
    buffer [filtered_file] returns after an earlier call, made with any
    arguments, is the buffer it returns without that call. *)
Theorem download_forgets_history (csv : DataFrame -> string) w yr0 mpg0 yr mpg data :
  dataset w = Some data ->
  exists sio0 w0 sio w1 w2,
    filtered_file csv yr0 mpg0 w = Some (sio0, w0) /\
    filtered_file csv yr mpg w0 = Some (sio, w1) /\
    filtered_file csv yr mpg w = Some (sio, w2).
Proof.
  intros Hd.
  destruct (filtered_file_run csv w yr0 mpg0 data Hd) as (l0 & w0 & _ & Hal0 & Hf0).
  destruct Hal0 as (_ & _ & Hkeep & Ha & Hy & _).
  assert (Hd0 : dataset w0 = Some data).
  { unfold dataset in *. rewrite Ha. by apply Hkeep. }
  destruct (filtered_file_run csv w0 yr mpg data Hd0) as (l1 & w1 & _ & _ & Hf1).
  destruct (filtered_file_run csv w yr mpg data Hd) as (l2 & w2 & _ & _ & Hf2).
  rewrite (view_years w w0 yr mpg data Hy) in Hf1.
  eexists _, w0, _, w1, w2. split; [exact Hf0|]. split; [exact Hf1 | exact Hf2].
Qed.

Lemma download_forgets_history_witness :
  exists sio0 w0 sio w1 w2,
    filtered_file Sample.csv [71] Sample.full (Sample.world [70]) = Some (sio0, w0) /\
    filtered_file Sample.csv [70] Sample.narrow w0 = Some (sio, w1) /\
    filtered_file Sample.csv [70] Sample.narrow (Sample.world [70]) = Some (sio, w2).
Proof.
  apply (download_forgets_history Sample.csv (Sample.world [70]) [71] Sample.full
           [70] Sample.narrow Sample.table).
  reflexivity.
Defined.

(** X11: with nothing selected and the range set to the two ends of the
    slider, the download is the CSV text of the whole table. *)
Theorem full_span_download (csv : DataFrame -> string) w data lo hi :
  dataset w = Some data ->
  years_value w = [] ->
  value_of mpg_start w = Some (Some lo) ->
  value_of mpg_end w = Some (Some hi) ->
  exists sio w',
    filtered_file csv [] (lo, hi) w = Some (sio, w') /\
    StringIO.read sio = csv data.
Proof.
  intros Hd Hy Hs He.
  pose proof (full_span_returns_table_rows w data lo hi Hd Hy Hs He) as Hview.
  destruct (filtered_file_run csv w [] (lo, hi) data Hd) as (l & w' & _ & _ & Hfile).
  rewrite Hview in Hfile.
  eexists _, w'. split; [exact Hfile|]. apply (read_rewound _ 0).
Qed.

Lemma full_span_download_witness :
  exists sio w',
    filtered_file Sample.csv [] (9 # 1, 466 # 10) (Sample.world []) = Some (sio, w') /\
    StringIO.read sio = Sample.csv Sample.table.
Proof.
  apply (full_span_download Sample.csv (Sample.world []) Sample.table (9 # 1) (466 # 10));
    reflexivity.
Defined.

(** X12: when a selection is held by the years widget and no row of the
    table has one of the selected years, the call made with that
    selection returns the empty frame. *)
Theorem absent_years_empty w yrs (mpg : Q * Q) data :
  dataset w = Some data ->
  years_value w = yrs ->
  yrs <> [] ->
  (forall r, r ∈ data -> r_yr r ∉ yrs) ->
  rows_of (filtered_mpg yrs mpg) w = Some [].
Proof.
  intros Hd Hy Hne Habs. rewrite (rows_of_filtered_mpg w yrs mpg data Hd). f_equal.
  apply view_nil. intros r Hr. apply elem_of_view in Hr as (Hin & Hyr & _).
  apply (Habs r Hin), Hyr. rewrite Hy. by apply truthy_true.
Qed.

Lemma absent_years_empty_witness :
  rows_of (filtered_mpg [75] Sample.full) (Sample.world [75]) = Some [].
Proof.
  apply (absent_years_empty (Sample.world [75]) [75] Sample.full Sample.table);
    try reflexivity; [discriminate|].
  intros r Hr Hyr. apply elem_of_cons in Hyr as [Hyr|Hyr]; [|by apply elem_of_nil in Hyr].
  repeat (apply elem_of_cons in Hr as [->|Hr]; [discriminate Hyr|]).
  by apply elem_of_nil in Hr.
Defined.
